(** * Lumo's Trello board: the state engine of [src/app.js]

    A shallow embedding of the board state, the mutation functions, the
    legacy migration and the import/export codec of [src/app.js], and the
    properties of the specification that concern them.

    What is modelled and how:
    - A JavaScript value that comes out of [JSON.parse] is a [json];
      [undefined] is [None] in [option json].  A number is carried by the
      text [String(n)] gives it ("0", "2", "1.5", "Infinity"): the program
      only ever tests a number for truthiness or uses it as a property key.
    - An object is the finite map of its own properties ([gmap string]);
      the members every object inherits from [Object.prototype] are not
      part of the model, so a key such as [toString] is a key like any
      other.  [Object.entries] lists a map in the order of [map_to_list].
    - A string is a sequence of 8-bit code units.
    - An exception is the [Throw] case of [result].
    - What [uid()], [nowISO()], [prompt()], [confirm()] and [JSON.parse]
      return is an input of the function that calls them.
    - The board is the record [Board]: the shape the comment at the top of
      the source gives to [state], every field holding any [json].  The
      identifiers passed to the mutation functions are strings.
    - [saveStateV2()], [render()] and [toast()] do not change the board:
      the mutation functions are modelled without their calls.  What
      [saveStateV2()] writes, what [loadStateV2()] reads and which cards
      [render()] shows are modelled on their own. *)

From stdpp Require Import gmap strings list fin_maps pretty.

#[local] Set Warnings "-register-all".

(** ** Exceptions *)

Inductive error : Type :=
| TypeError
| ReferenceError
| SyntaxError
| Error (message : string).

Inductive result (A : Type) : Type :=
| Ok (a : A)
| Throw (e : error).
Arguments Ok {A} a.
Arguments Throw {A} e.

#[global] Instance result_ret : MRet result := λ A a, Ok a.
#[global] Instance result_bind : MBind result := λ A B f r,
  match r with
  | Ok a => f a
  | Throw e => Throw e
  end.
#[global] Instance result_fmap : FMap result := λ A B f r,
  match r with
  | Ok a => Ok (f a)
  | Throw e => Throw e
  end.

(** ** Values *)

Inductive json : Type :=
| JNull
| JBool (b : bool)
| JNum (repr : string)
| JStr (s : string)
| JArr (items : list json)
| JObj (props : gmap string json).

(** [!v] is [negb (truthy v)]. *)
Definition truthy (v : option json) : bool :=
  match v with
  | None | Some JNull => false
  | Some (JBool b) => b
  | Some (JNum r) => negb (bool_decide (r = "0") || bool_decide (r = "NaN"))
  | Some (JStr s) => negb (bool_decide (s = ""))
  | Some (JArr _) | Some (JObj _) => true
  end.

(** [typeof v === "object"] *)
Definition typeof_object (v : option json) : bool :=
  match v with
  | Some JNull | Some (JArr _) | Some (JObj _) => true
  | _ => false
  end.

(** [typeof v === "string"] *)
Definition typeof_string (v : option json) : bool :=
  match v with
  | Some (JStr _) => true
  | _ => false
  end.

Definition Array_isArray (v : option json) : bool :=
  match v with
  | Some (JArr _) => true
  | _ => false
  end.

(** [v.k], for the data properties the program reads ([lists], [cards],
    [id], [title], [cardIds], [createdAt], [category], [dueDate]): none of
    them is a property of an array, a string, a number or a boolean. *)
Definition get (v : option json) (k : string) : result (option json) :=
  match v with
  | None | Some JNull => Throw TypeError
  | Some (JObj props) => Ok (props !! k)
  | Some _ => Ok None
  end.

(** [v ?? d] *)
Definition coalesce (v : option json) (d : json) : json :=
  match v with
  | None | Some JNull => d
  | Some j => j
  end.
Infix "??" := coalesce (at level 45, left associativity).

(** A value that the test before it has shown not to be [undefined]. *)
Definition defined (v : option json) : json := default JNull v.

(** [v === s] for a string [s]; [Array.prototype.includes] compares the
    same way when it looks for a string. *)
Definition strict_eq_string (v : option json) (s : string) : bool :=
  match v with
  | Some (JStr s') => bool_decide (s' = s)
  | _ => false
  end.

(** [String(v)], which is also the property key [v] stands for in [o[v]]. *)
Fixpoint ToString (v : json) : string :=
  match v with
  | JNull => "null"
  | JBool true => "true"
  | JBool false => "false"
  | JNum r => r
  | JStr s => s
  | JArr items =>
      String.concat ","
        ((λ x, match x with JNull => "" | _ => ToString x end) <$> items)
  | JObj _ => "[object Object]"
  end.

Definition array_items (v : option json) : list json :=
  match v with
  | Some (JArr items) => items
  | _ => []
  end.

(** [Object.entries(v)] *)
Definition Object_entries (v : option json) : result (list (string * json)) :=
  match v with
  | None | Some JNull => Throw TypeError
  | Some (JObj props) => Ok (map_to_list props)
  | Some (JArr items) => Ok (imap (λ i x, (pretty i, x)) items)
  | Some (JStr s) =>
      Ok (imap (λ i c, (pretty i, JStr (String c ""))) (String.list_ascii_of_string s))
  | Some _ => Ok []
  end.

(** ** Strings *)

(** White space and line terminators below U+0100. *)
Definition is_white_space (c : Ascii.ascii) : bool :=
  let n := Ascii.nat_of_ascii c in
  (9 <=? n) && (n <=? 13) || (n =? 32) || (n =? 160).

Fixpoint trimStart (s : string) : string :=
  match s with
  | EmptyString => EmptyString
  | String c s' => if is_white_space c then trimStart s' else s
  end.

Fixpoint trimEnd (s : string) : string :=
  match s with
  | EmptyString => EmptyString
  | String c s' =>
      let t := trimEnd s' in
      if is_white_space c && bool_decide (t = "") then "" else String c t
  end.

Definition trim (s : string) : string := trimEnd (trimStart s).

Definition lower_unit (c : Ascii.ascii) : Ascii.ascii :=
  let n := Ascii.nat_of_ascii c in
  if (65 <=? n) && (n <=? 90) || (192 <=? n) && (n <=? 222) && negb (n =? 215)
  then Ascii.ascii_of_nat (n + 32)
  else c.

Fixpoint toLowerCase (s : string) : string :=
  match s with
  | EmptyString => EmptyString
  | String c s' => String (lower_unit c) (toLowerCase s')
  end.

(** ** The board *)

Record category_option : Type := { key : string; label : string }.

Definition CATEGORY_OPTIONS : list category_option :=
  [ {| key := "assignment"; label := "Assignment" |};
    {| key := "lab"; label := "Lab" |};
    {| key := "project"; label := "Project" |};
    {| key := "mod"; label := "Mod" |};
    {| key := "unfinished"; label := "Unfinished" |} ].

(** [CATEGORY_OPTIONS.some((c) => c.key === v)] *)
Definition is_category (v : option json) : bool :=
  existsb (λ c, strict_eq_string v (key c)) CATEGORY_OPTIONS.

Record List : Type := mkList {
  list_id : json;
  list_title : json;
  cardIds : list json
}.

Record Card : Type := mkCard {
  card_id : json;
  card_title : json;
  createdAt : json;
  category : json;
  dueDate : json
}.

Record Board : Type := mkBoard {
  version : json;
  lists : list List;
  cards : gmap string Card
}.

(** [xs.findIndex(f)]; [xs.find(f)] yields the element at that position,
    and an update through the reference it returned is an update there. *)
Fixpoint findIndex {A} (f : A → bool) (xs : list A) : option nat :=
  match xs with
  | [] => None
  | x :: xs' => if f x then Some 0 else S <$> findIndex f xs'
  end.

Definition has_id (listId : string) (l : List) : bool :=
  strict_eq_string (Some (list_id l)) listId.

(** [ids.includes(cardId)] *)
Definition includes (cardId : string) (ids : list json) : bool :=
  existsb (λ v, strict_eq_string (Some v) cardId) ids.

(** [ids.filter((id) => id !== cardId)] *)
Definition without (cardId : string) (ids : list json) : list json :=
  filter (λ v, strict_eq_string (Some v) cardId = false) ids.


Definition set_cardIds (ids : list json) (l : List) : List :=
  {| list_id := list_id l; list_title := list_title l; cardIds := ids |}.

Definition set_lists (ls : list List) (state : Board) : Board :=
  {| version := version state; lists := ls; cards := cards state |}.

(** ** List actions *)

(** [createList(title)]; [uid] is what [uid("list")] returned. *)
Definition createList (uid : string) (title : string) (state : Board) : Board :=
  let newList :=
    {| list_id := JStr uid; list_title := JStr title; cardIds := [] |} in
  set_lists (lists state ++ [newList]) state.


(** [deleteList(listId)]; [ok] is what [confirm] returned. *)
Definition deleteList (listId : string) (ok : bool) (state : Board) : Board :=
  match findIndex (has_id listId) (lists state) with
  | None => state
  | Some i =>
      match lists state !! i with
      | None => state
      | Some list =>
          if negb ok then state
          else
            {| version := version state;
               lists := filter (λ l, has_id listId l = false) (lists state);
               cards :=
                 foldl (λ cs cid, delete (ToString cid) cs) (cards state)
                   (cardIds list) |}
      end
  end.

(** ** Card actions *)

(** [createCard(listId, title, category, dueDate)]; [uid] and [now] are what
    [uid("card")] and [nowISO()] returned; [None] is [null]. *)
Definition createCard (uid now : string) (listId title : string)
    (category dueDate : option string) (state : Board) : Board :=
  match findIndex (has_id listId) (lists state) with
  | None => state
  | Some i =>
      let card :=
        {| card_id := JStr uid;
           card_title := JStr title;
           createdAt := JStr now;
           category := (JStr <$> category) ?? JStr "project";
           dueDate := (JStr <$> dueDate) ?? JNull |} in
      {| version := version state;
         lists :=
           alter (λ l, set_cardIds (cardIds l ++ [JStr uid]) l) i (lists state);
         cards := <[uid := card]> (cards state) |}
  end.

(** [editCard(cardId)]; the three arguments after [cardId] are what the
    three calls of [prompt] returned. *)
Definition editCard (cardId : string)
    (nextTitle catPrompt duePrompt : option string) (state : Board) : Board :=
  match cards state !! cardId with
  | None => state
  | Some card =>
      match nextTitle with
      | None => state
      | Some nextTitle =>
          let cleaned := trim nextTitle in
          if bool_decide (cleaned = "") then state
          else
            let cat := toLowerCase (trim (default "" catPrompt)) in
            let valid :=
              if is_category (Some (JStr cat)) then JStr cat
              else category card in
            let dueClean := trim (default "" duePrompt) in
            let due :=
              if bool_decide (dueClean = "") then JNull else JStr dueClean in
            {| version := version state;
               lists := lists state;
               cards :=
                 <[cardId :=
                     {| card_id := card_id card;
                        card_title := JStr cleaned;
                        createdAt := createdAt card;
                        category := valid;
                        dueDate := due |}]> (cards state) |}
      end
  end.

(** [deleteCard(cardId)]; [ok] is what [confirm] returned. *)
Definition deleteCard (cardId : string) (ok : bool) (state : Board) : Board :=
  match cards state !! cardId with
  | None => state
  | Some card =>
      if negb ok then state
      else
        {| version := version state;
           lists :=
             (λ l, set_cardIds (without cardId (cardIds l)) l) <$> lists state;
           cards := delete cardId (cards state) |}
  end.

(** ** Drag and drop *)

(** The list [fromList] of [moveCardToList]: the first that holds the card. *)
Definition source_of (cardId : string) (state : Board) : option nat :=
  findIndex (λ l, includes cardId (cardIds l)) (lists state).

(** The list [toList] of [moveCardToList]. *)
Definition target_of (targetListId : string) (state : Board) : option nat :=
  findIndex (has_id targetListId) (lists state).

Definition moveCardToList (cardId targetListId : string) (state : Board)
    : Board :=
  match cards state !! cardId with
  | None => state
  | Some _ =>
      let fromList := source_of cardId state in
      match target_of targetListId state with
      | None => state
      | Some toList =>
          let lists1 :=
            match fromList with
            | Some i =>
                alter (λ l, set_cardIds (without cardId (cardIds l)) l) i
                  (lists state)
            | None => lists state
            end in
          let lists2 :=
            alter
              (λ l,
                 if includes cardId (cardIds l) then l
                 else set_cardIds (cardIds l ++ [JStr cardId]) l)
              toList lists1 in
          set_lists lists2 state
      end
  end.

(** ** Import and export *)

(** The callback of [lists.map] in [normalizeImportedState] and in
    [migrateFromOldState]; [uid] is what [uid("list")] returns when it is
    called. *)
Definition list_of_json (uid : string) (l : json) : result List :=
  id ← get (Some l) "id";
  title ← get (Some l) "title";
  ids ← get (Some l) "cardIds";
  mret {| list_id := id ?? JStr uid;
          list_title := title ?? JStr "Untitled";
          cardIds := if Array_isArray ids then array_items ids else [] |}.

(** [lists.map(...)]: [uid i] is the identifier drawn for the list at
    position [i]. *)
Fixpoint lists_of_json (uid : nat → string) (i : nat) (ls : list json)
    : result (list List) :=
  match ls with
  | [] => mret []
  | l :: ls' =>
      x ← list_of_json (uid i) l;
      xs ← lists_of_json uid (S i) ls';
      mret (x :: xs)
  end.

(** The card [normalizeImportedState] stores under [id]. *)
Definition normalized_card (now : string) (id : string) (c : json)
    : result Card :=
  cid ← get (Some c) "id";
  title ← get (Some c) "title";
  created ← get (Some c) "createdAt";
  cat ← get (Some c) "category";
  due ← get (Some c) "dueDate";
  mret {| card_id := cid ?? JStr id;
          card_title := title ?? JStr "Untitled";
          createdAt := created ?? JStr now;
          category := if is_category cat then defined cat else JStr "project";
          dueDate := if typeof_string due then defined due else JNull |}.

(** The card [migrateFromOldState] stores under [id]. *)
Definition migrated_card (now : string) (id : string) (card : json)
    : result Card :=
  cid ← get (Some card) "id";
  title ← get (Some card) "title";
  created ← get (Some card) "createdAt";
  mret {| card_id := cid ?? JStr id;
          card_title := title ?? JStr "Untitled";
          createdAt := created ?? JStr now;
          category := JStr "project";
          dueDate := JNull |}.

(** [for (const [id, c] of entries) out[id] = mk(id, c)]; [now id] is what
    [nowISO()] returns if it is called for the entry [id]. *)
Fixpoint cards_loop (mk : string → string → json → result Card)
    (now : string → string) (entries : list (string * json))
    (out : gmap string Card) : result (gmap string Card) :=
  match entries with
  | [] => mret out
  | (id, c) :: rest =>
      card ← mk (now id) id c;
      cards_loop mk now rest (<[id := card]> out)
  end.

Definition normalizeImportedState (uid : nat → string) (now : string → string)
    (parsed : json) : result Board :=
  if negb (truthy (Some parsed)) || negb (typeof_object (Some parsed))
  then Throw (Error "Invalid file")
  else
    parsed_lists ← get (Some parsed) "lists";
    let lists :=
      if Array_isArray parsed_lists then array_items parsed_lists else [] in
    parsed_cards ← get (Some parsed) "cards";
    let cards :=
      if truthy parsed_cards && typeof_object parsed_cards then parsed_cards
      else Some (JObj ∅) in
    out_lists ← lists_of_json uid 0 lists;
    entries ← Object_entries cards;
    out_cards ← cards_loop normalized_card now entries ∅;
    mret {| version := JNum "2"; lists := out_lists; cards := out_cards |}.

(** What the user is told at the end of an import. *)
Inductive import_signal : Type :=
| Imported
| InvalidDocument.

(** The [onload] callback of [importBoardFromFile]; [parsed] is the outcome
    of [JSON.parse] on the text of the file: [Throw SyntaxError] for a text
    that is not JSON, such as [not json], and [Ok (JArr [])] for the text
    [[]].  The result is the new value of [state] and the signal. *)
Definition importBoardFromFile (uid : nat → string) (now : string → string)
    (parsed : result json) (state : Board) : Board * import_signal :=
  match parsed ≫= normalizeImportedState uid now with
  | Ok normalized => (normalized, Imported)
  | Throw _ => (state, InvalidDocument)
  end.

(** [JSON.parse(JSON.stringify(v))]: a number that is not finite is written
    as [null]. *)
Fixpoint reparsed (v : json) : json :=
  match v with
  | JNum r =>
      if bool_decide (r = "NaN") || bool_decide (r = "Infinity")
         || bool_decide (r = "-Infinity")
      then JNull else v
  | JArr items => JArr (reparsed <$> items)
  | JObj props => JObj (reparsed <$> props)
  | _ => v
  end.

Definition json_of_list (l : List) : json :=
  JObj (<["id" := reparsed (list_id l)]>
       (<["title" := reparsed (list_title l)]>
       (<["cardIds" := JArr (reparsed <$> cardIds l)]> ∅))).

Definition json_of_card (c : Card) : json :=
  JObj (<["id" := reparsed (card_id c)]>
       (<["title" := reparsed (card_title c)]>
       (<["createdAt" := reparsed (createdAt c)]>
       (<["category" := reparsed (category c)]>
       (<["dueDate" := reparsed (dueDate c)]> ∅))))).

(** The document [exportBoard] writes: what [JSON.parse] reads back from
    [JSON.stringify(state, null, 2)]. *)
Definition exportBoard (state : Board) : json :=
  JObj (<["version" := reparsed (version state)]>
       (<["lists" := JArr (json_of_list <$> lists state)]>
       (<["cards" := JObj (json_of_card <$> cards state)]> ∅))).

(** ** Legacy migration *)

(** The variable [state] of the script: a [let] binding cannot be read or
    assigned before its initializer has finished. *)
Inductive binding : Type :=
| Uninitialized
| Initialized (board : Board).

(** [state = board] *)
Definition assign (state : binding) (board : Board) : result binding :=
  match state with
  | Uninitialized => Throw ReferenceError
  | Initialized _ => mret (Initialized board)
  end.

(** [loadOldState()]; [stored] is [None] when the legacy key holds nothing,
    else the outcome of [JSON.parse] on the text it holds. *)
Definition loadOldState (stored : option (result json)) : json :=
  match stored with
  | None => JNull
  | Some (Throw _) => JNull
  | Some (Ok parsed) => parsed
  end.

(** [old.lists.map(f)]: only an array has the method. *)
Definition lists_map (uid : nat → string) (old_lists : option json)
    : result (list List) :=
  match old_lists with
  | Some (JArr items) => lists_of_json uid 0 items
  | _ => Throw TypeError
  end.

(** The object [migrated] that [migrateFromOldState] builds before it
    assigns it to [state]; [None] is the [null] it returns at once. *)
Definition migrated_board (uid : nat → string) (now : string → string)
    (old : json) : result (option Board) :=
  if negb (truthy (Some old)) then mret None
  else
    old_lists ← get (Some old) "lists";
    if negb (truthy old_lists) then mret None
    else
      old_cards ← get (Some old) "cards";
      if negb (truthy old_cards) then mret None
      else
        migrated_lists ← lists_map uid old_lists;
        entries ← Object_entries old_cards;
        migrated_cards ← cards_loop migrated_card now entries ∅;
        mret (Some {| version := JNum "2";
                      lists := migrated_lists;
                      cards := migrated_cards |}).

(** [migrateFromOldState(old)], from the value of the variable [state] to
    the value returned and the new value of [state]. *)
Definition migrateFromOldState (uid : nat → string) (now : string → string)
    (old : json) (state : binding) : result (option Board * binding) :=
  migrated ← migrated_board uid now old;
  match migrated with
  | None => mret (None, state)
  | Some board =>
      state' ← assign state board;
      mret (Some board, state')
  end.

(** The second operand of the initializer of [state],
    [migrateFromOldState(loadOldState())]: it is evaluated, when
    [loadStateV2()] gave [null], before [state] is initialized, and nothing
    catches what it throws.  The specification calls it [migrateLegacy]. *)
Definition migrateLegacy (uid : nat → string) (now : string → string)
    (stored : option (result json)) : result (option Board) :=
  fst <$> migrateFromOldState uid now (loadOldState stored) Uninitialized.

(** ** Persistence *)

(** [v === n] for the number whose text is [r]. *)
Definition strict_eq_number (v : option json) (r : string) : bool :=
  match v with
  | Some (JNum r') => bool_decide (r' = r)
  | _ => false
  end.

(** What [localStorage] holds under the two keys of the script: [None] when
    a key holds no text, or the empty text, else the outcome of
    [JSON.parse] on the text it holds. *)
Record storage : Type := mkStorage {
  stored_v2 : option (result json);
  stored_old : option (result json)
}.

(** [saveStateV2()]: [JSON.parse] reads [exportBoard state] back from the
    text [JSON.stringify(state)]. *)
Definition saveStateV2 (state : Board) (s : storage) : storage :=
  {| stored_v2 := Some (Ok (exportBoard state)); stored_old := stored_old s |}.

(** [loadStateV2()] *)
Definition loadStateV2 (stored : option (result json)) : option json :=
  match stored with
  | None => None
  | Some (Throw _) => None
  | Some (Ok parsed) =>
      if negb (truthy (Some parsed)) then None
      else
        match get (Some parsed) "version" with
        | Ok v => if negb (strict_eq_number v "2") then None else Some parsed
        | Throw _ => None
        end
  end.

(** ** Starter board *)

(** [starterStateV2()]: [uid 0] to [uid 4] are what the five calls of
    [uid("card")] return, [uid 5] to [uid 9] what the five calls of
    [uid("list")] return, [now 0] to [now 4] what the five calls of
    [nowISO()] return.  The titles are written as the bytes of their UTF-8
    text. *)
Definition starterStateV2 (uid : nat → string) (now : nat → string) : Board :=
  let mkCard (i : nat) (title category : string) : Card :=
    {| card_id := JStr (uid i);
       card_title := JStr title;
       createdAt := JStr (now i);
       category := JStr category;
       dueDate := JNull |} in
  let c1 := mkCard 0 "Add your assignments for the week" "assignment" in
  let c2 := mkCard 1 "Track GA labs you haven’t finished" "lab" in
  let c3 := mkCard 2 "Ship Mod-Vault features (UI/UX)" "project" in
  let c4 := mkCard 3 "Unfinished mod tasks (Bannerlord/BG3/etc.)" "mod" in
  let c5 := mkCard 4 "Move old tasks here when paused" "unfinished" in
  {| version := JNum "2";
     lists :=
       [ {| list_id := JStr (uid 5); list_title := JStr "📘 Assignments";
            cardIds := [JStr (uid 0)] |};
         {| list_id := JStr (uid 6); list_title := JStr "🧪 Labs";
            cardIds := [JStr (uid 1)] |};
         {| list_id := JStr (uid 7); list_title := JStr "🛠 Projects";
            cardIds := [JStr (uid 2)] |};
         {| list_id := JStr (uid 8); list_title := JStr "🧩 Mods";
            cardIds := [JStr (uid 3)] |};
         {| list_id := JStr (uid 9); list_title := JStr "💤 Unfinished";
            cardIds := [JStr (uid 4)] |} ];
     cards :=
       <[uid 4 := c5]> (<[uid 3 := c4]> (<[uid 2 := c3]>
         (<[uid 1 := c2]> (<[uid 0 := c1]> ∅)))) |}.


(** ** Start-up *)

(** The value [state] starts with: the document [loadStateV2()] found, as
    it is, or a board built by the migration or by [starterStateV2()]. *)
Inductive started : Type :=
| Loaded (document : json)
| Built (board : Board).

(** The initializer of [state],
    [loadStateV2() ?? migrateFromOldState(loadOldState()) ?? starterStateV2()]. *)
Definition initial_state (uid : nat → string) (now : string → string)
    (starter_uid : nat → string) (starter_now : nat → string) (s : storage)
    : result started :=
  match loadStateV2 (stored_v2 s) with
  | Some parsed => mret (Loaded parsed)
  | None =>
      migrated ← migrateLegacy uid now (stored_old s);
      match migrated with
      | Some board => mret (Built board)
      | None => mret (Built (starterStateV2 starter_uid starter_now))
      end
  end.

(** ** Rendering *)


(** The option whose label the badge of a card shows,
    [CATEGORY_OPTIONS.find((c) => c.key === card.category) ?? CATEGORY_OPTIONS[2]]. *)
Definition badge (card : Card) : category_option :=
  match
    List.find (λ c, strict_eq_string (Some (category card)) (key c))
      CATEGORY_OPTIONS
  with
  | Some c => c
  | None => nth 2 CATEGORY_OPTIONS {| key := ""; label := "" |}
  end.

(** ** Event handlers *)





(** * The data model of the specification *)

Definition is_string (v : json) : Prop := ∃ s, v = JStr s.

Definition is_title (v : json) : Prop := ∃ s, v = JStr s ∧ s ≠ "".

Definition valid_list (l : List) : Prop :=
  is_string (list_id l) ∧ is_title (list_title l).

Definition valid_card (id : string) (c : Card) : Prop :=
  card_id c = JStr id
  ∧ is_title (card_title c)
  ∧ is_string (createdAt c)
  ∧ is_category (Some (category c)) = true
  ∧ (dueDate c = JNull ∨ is_string (dueDate c)).

(** Every id in every list's [cardIds] is a key of [cards]. *)
Definition referential_integrity (b : Board) : Prop :=
  ∀ l v, l ∈ lists b → v ∈ cardIds l →
    ∃ s, v = JStr s ∧ is_Some (cards b !! s).

(** A card id occurs in the [cardIds] of at most one of the lists. *)
Definition single_in (ls : list List) : Prop :=
  ∀ i j li lj s,
    ls !! i = Some li → ls !! j = Some lj →
    JStr s ∈ cardIds li → JStr s ∈ cardIds lj → i = j.

Definition single_membership (b : Board) : Prop := single_in (lists b).

Definition unique_list_ids (b : Board) : Prop :=
  ∀ i j li lj,
    lists b !! i = Some li → lists b !! j = Some lj →
    list_id li = list_id lj → i = j.

Record data_model (b : Board) : Prop := {
  dm_version : version b = JNum "2";
  dm_lists : Forall valid_list (lists b);
  dm_list_ids : unique_list_ids b;
  dm_cards : map_Forall valid_card (cards b);
  dm_refs : referential_integrity b;
  dm_single : single_membership b
}.


Definition plausible (old : json) : bool :=
  truthy (Some old)
  && match get (Some old) "lists", get (Some old) "cards" with
     | Ok old_lists, Ok old_cards => truthy old_lists && truthy old_cards
     | _, _ => false
     end.

(** * Sequences of calls of the mutation functions *)






(** * Boards and documents to try things on *)

Definition sample_card (id title cat : string) (due : json) : Card :=
  {| card_id := JStr id;
     card_title := JStr title;
     createdAt := JStr "2024-03-01T09:30:00.000Z";
     category := JStr cat;
     dueDate := due |}.

Definition sample_board : Board :=
  {| version := JNum "2";
     lists :=
       [ {| list_id := JStr "L"; list_title := JStr "Labs";
            cardIds := [JStr "c1"; JStr "c2"] |};
         {| list_id := JStr "M"; list_title := JStr "Mods";
            cardIds := [JStr "c3"] |};
         {| list_id := JStr "N"; list_title := JStr "Later";
            cardIds := [] |} ];
     cards :=
       <["c1" := sample_card "c1" "Finish lab 3" "lab" JNull]>
       (<["c2" := sample_card "c2" "Read chapter 4" "assignment"
                    (JStr "2024-03-08")]>
       (<["c3" := sample_card "c3" "Patch the mod" "mod" JNull]> ∅)) |}.


Definition sample_uid (i : nat) : string := "list_" +:+ pretty i.

Definition sample_now (id : string) : string := "2024-03-09T12:00:00.000Z".

Definition urgent_card : json :=
  JObj (<["title" := JStr "Call the lab"]>
       (<["category" := JStr "urgent"]> ∅)).

Definition urgent_document : gmap string json :=
  <["lists" := JArr []]>
  (<["cards" := JObj (<["c9" := urgent_card]> ∅)]> ∅).

Definition urgent_board : Board :=
  {| version := JNum "2";
     lists := [];
     cards :=
       <["c9" :=
           {| card_id := JStr "c9";
              card_title := JStr "Call the lab";
              createdAt := JStr (sample_now "c9");
              category := JStr "project";
              dueDate := JNull |}]> ∅ |}.

Definition dangling_document : json :=
  JObj (<["lists" :=
            JArr [JObj (<["id" := JStr "L"]>
                       (<["title" := JStr "Labs"]>
                       (<["cardIds" := JArr [JStr "ghost"]]> ∅)))]]>
       (<["cards" := JObj ∅]> ∅)).

Definition dangling_board : Board :=
  {| version := JNum "2";
     lists :=
       [ {| list_id := JStr "L"; list_title := JStr "Labs";
            cardIds := [JStr "ghost"] |} ];
     cards := ∅ |}.

Definition empty_board : Board :=
  {| version := JNum "2"; lists := []; cards := ∅ |}.

Definition legacy_example : json :=
  JObj (<["lists" := JArr [JObj (<["id" := JStr "L1"]> ∅)]]>
       (<["cards" := JObj (<["C1" := JObj (<["title" := JStr "x"]> ∅)]> ∅)]>
          ∅)).

Definition legacy_example_migrated (now : string → string) : Board :=
  {| version := JNum "2";
     lists :=
       [ {| list_id := JStr "L1"; list_title := JStr "Untitled";
            cardIds := [] |} ];
     cards :=
       <["C1" :=
           {| card_id := JStr "C1";
              card_title := JStr "x";
              createdAt := JStr (now "C1");
              category := JStr "project";
              dueDate := JNull |}]> ∅ |}.

Definition legacy_number_lists : json :=
  JObj (<["lists" := JNum "5"]> (<["cards" := JObj ∅]> ∅)).

(** * Calls and events under which the whole data model is kept *)






(** The ten identifiers [starterStateV2] draws: those of the cards differ
    from one another, and so do those of the lists. *)
Definition distinct_uids (uid : nat → string) : Prop :=
  NoDup (uid <$> [0; 1; 2; 3; 4]) ∧ NoDup (uid <$> [5; 6; 7; 8; 9]).



(** A card as the legacy schema has it: without a category that
    [CATEGORY_OPTIONS] knows and without a due date that is a string. *)
Definition legacy_card (c : json) : Prop :=
  ∀ cat due,
    get (Some c) "category" = Ok cat → get (Some c) "dueDate" = Ok due →
    is_category cat = false ∧ typeof_string due = false.

(** * More boards and documents to try things on *)

Definition sample_starter_uid (i : nat) : string :=
  (if bool_decide (i < 5) then "card_" else "list_") +:+ pretty i.

Definition sample_starter_now (i : nat) : string := "2024-03-10T08:00:00.000Z".


Definition null_card_document : gmap string json :=
  <["lists" := JArr []]> (<["cards" := JObj (<["c1" := JNull]> ∅)]> ∅).

Definition sample_storage : storage :=
  {| stored_v2 := Some (Throw SyntaxError);
     stored_old := Some (Ok legacy_example) |}.

(** * Properties *)

(** ** Auxiliary facts *)

Lemma strict_eq_string_true v s :
  strict_eq_string (Some v) s = true ↔ v = JStr s.
Proof.
  destruct v; simpl; try (split; [done | discriminate]).
  rewrite bool_decide_eq_true. split; congruence.
Qed.

Lemma strict_eq_string_false v s :
  strict_eq_string (Some v) s = false ↔ v ≠ JStr s.
Proof.
  rewrite <- strict_eq_string_true. destruct (strict_eq_string _ _); naive_solver.
Qed.

Lemma includes_true cardId ids : includes cardId ids = true ↔ JStr cardId ∈ ids.
Proof.
  unfold includes. rewrite existsb_exists. split.
  - intros (v & Hin & Hv). apply strict_eq_string_true in Hv as ->.
    by apply list_elem_of_In.
  - intros Hin. exists (JStr cardId). split; [by apply list_elem_of_In |].
    by apply strict_eq_string_true.
Qed.

Lemma includes_false cardId ids : includes cardId ids = false ↔ JStr cardId ∉ ids.
Proof.
  rewrite <- includes_true. destruct (includes _ _); naive_solver.
Qed.

Lemma elem_of_without cardId ids v :
  v ∈ without cardId ids ↔ v ∈ ids ∧ v ≠ JStr cardId.
Proof.
  unfold without. rewrite list_elem_of_filter, strict_eq_string_false. tauto.
Qed.

Lemma without_absent cardId ids : JStr cardId ∉ ids → without cardId ids = ids.
Proof.
  intros Hnot. unfold without. induction ids as [|v ids IH]; [done |].
  apply not_elem_of_cons in Hnot as [Hv Hids].
  rewrite filter_cons_True by (by apply strict_eq_string_false).
  by rewrite IH.
Qed.

Lemma without_app cardId xs ys :
  without cardId (xs ++ ys) = without cardId xs ++ without cardId ys.
Proof. apply filter_app. Qed.

Lemma without_self cardId : without cardId [JStr cardId] = [].
Proof.
  unfold without. rewrite filter_cons_False; [done |].
  rewrite strict_eq_string_false. naive_solver.
Qed.

Lemma findIndex_Some {A} (f : A → bool) xs i :
  findIndex f xs = Some i ↔
    ∃ x, xs !! i = Some x ∧ f x = true
         ∧ ∀ j y, j < i → xs !! j = Some y → f y = false.
Proof.
  revert i. induction xs as [|x xs IH]; intros i; simpl.
  - split; [done | by intros (? & ? & _)].
  - destruct (f x) eqn:Hfx.
    + split.
      * intros [= <-]. exists x. repeat split; [done | lia].
      * intros (y & Hy & Hfy & Hlt). destruct i as [|i]; [done |].
        specialize (Hlt 0 x ltac:(lia) eq_refl). congruence.
    + rewrite fmap_Some. split.
      * intros (k & Hk & ->). apply IH in Hk as (y & Hy & Hfy & Hlt).
        exists y. repeat split; [done.. |].
        intros [|j] z Hj Hz; simplify_eq/=; [done |].
        apply (Hlt j); [lia | done].
      * intros (y & Hy & Hfy & Hlt). destruct i as [|i]; simpl in Hy.
        { congruence. }
        exists i. split; [| done]. apply IH.
        exists y. repeat split; [done.. |].
        intros j z Hj Hz. apply (Hlt (S j)); [lia | done].
Qed.

Lemma findIndex_None {A} (f : A → bool) xs :
  findIndex f xs = None ↔ ∀ x, x ∈ xs → f x = false.
Proof.
  induction xs as [|x xs IH]; simpl.
  - split; [| done]. intros _ x Hx. by apply elem_of_nil in Hx.
  - destruct (f x) eqn:Hfx.
    + split; [done |]. intros H. specialize (H x ltac:(left)). congruence.
    + rewrite fmap_None, IH. split.
      * intros H y [-> | Hy]%elem_of_cons; [done | by apply H].
      * intros H y Hy. apply H. by right.
Qed.

Lemma fmap_alter_same {A B} (g : A → B) (f : A → A) i (xs : list A) :
  (∀ x, g (f x) = g x) → g <$> alter f i xs = g <$> xs.
Proof.
  intros Hgf. apply list_eq. intros j.
  rewrite !list_lookup_fmap, list_lookup_alter.
  case_decide; [| done]. subst.
  destruct (xs !! j); simpl; [| done]. by rewrite Hgf.
Qed.

(** ** The mutation functions keep references sound *)











Lemma moveCardToList_back cardId targetListId b card toList k l v :
  single_membership b →
  cards b !! cardId = Some card →
  target_of targetListId b = Some toList →
  lists (moveCardToList cardId targetListId b) !! k = Some l →
  v ∈ cardIds l →
  (v = JStr cardId ∧ k = toList)
  ∨ (v ≠ JStr cardId ∧ ∃ l0, lists b !! k = Some l0 ∧ v ∈ cardIds l0).
Proof.
  intros HSM Hcard Hto. unfold moveCardToList. rewrite Hcard, Hto. simpl.
  set (strip := λ l : List, set_cardIds (without cardId (cardIds l)) l).
  set (push := λ l : List,
         if includes cardId (cardIds l) then l
         else set_cardIds (cardIds l ++ [JStr cardId]) l).
  set (lists1 := match source_of cardId b with
                 | Some i => alter strip i (lists b)
                 | None => lists b
                 end).
  intros Hk Hv.
  assert (∀ k l, lists1 !! k = Some l → ∀ v, v ∈ cardIds l →
            ∃ l0, lists b !! k = Some l0 ∧ v ∈ cardIds l0) as Hback1.
  { intros k' l' Hk' v' Hv'. unfold lists1 in Hk'.
    destruct (source_of cardId b) as [f|]; [| eauto].
    rewrite list_lookup_alter in Hk'. case_decide; [subst k' |]; [| eauto].
    destruct (lists b !! f) as [l0|]; simplify_eq/=.
    apply elem_of_without in Hv' as [Hv' _]. eauto. }
  assert (∀ k l, lists1 !! k = Some l → JStr cardId ∈ cardIds l → False)
    as Hgone.
  { intros k' l' Hk' Hin. unfold lists1 in Hk'.
    destruct (source_of cardId b) as [f|] eqn:Hsrc.
    - apply findIndex_Some in Hsrc as (lf & Hlf & Hinf & _).
      apply includes_true in Hinf.
      rewrite list_lookup_alter in Hk'. case_decide; [subst k' |].
      + rewrite Hlf in Hk'. simplify_eq/=.
        apply elem_of_without in Hin as [_ Hne]. done.
      + assert (f = k') by eauto. done.
    - eapply findIndex_None in Hsrc; [| by eapply list_elem_of_lookup_2].
      apply includes_false in Hsrc. done. }
  assert (∀ l1, lists1 !! k = Some l1 → v ∈ cardIds l1 →
            v ≠ JStr cardId ∧ ∃ l0, lists b !! k = Some l0 ∧ v ∈ cardIds l0)
    as Hold.
  { intros l1 Hl1 Hv1. split; [| eauto].
    intros ->. eauto. }
  rewrite list_lookup_alter in Hk. case_decide; [subst k |]; [| eauto].
  destruct (lists1 !! toList) as [l1|] eqn:Hl1; simplify_eq/=.
  unfold push in Hv. destruct (includes cardId (cardIds l1)); [eauto |].
  simpl in Hv. apply elem_of_app in Hv as [Hv | Hv%list_elem_of_singleton];
    eauto.
Qed.




Lemma sample_board_data_model : data_model sample_board.
Proof.
  split.
  - done.
  - repeat constructor; simpl; unfold is_string, is_title; eauto.
  - intros [|[|[|i]]] [|[|[|j]]] li lj Hi Hj Heq; by simplify_eq/=.
  - unfold sample_board; simpl.
    repeat (apply map_Forall_insert_2; [| ]);
      [.. | apply map_Forall_empty];
      (split; [done |]); unfold is_title, is_string; simpl;
      repeat split; eauto.
  - intros l v Hl%list_elem_of_In Hv. simpl in Hl.
    destruct Hl as [<- | [<- | [<- | []]]];
      apply list_elem_of_In in Hv; simpl in Hv;
      repeat (destruct Hv as [<- | Hv]); try done;
      eexists; (split; [done |]); vm_compute; by eexists.
  - intros [|[|[|i]]] [|[|[|j]]] li lj s Hi Hj Hsi Hsj; simplify_eq/=;
      try done;
      apply list_elem_of_In in Hsi; apply list_elem_of_In in Hsj;
      simpl in Hsi, Hsj; intuition congruence.
Qed.

(** ** Referential integrity *)



(** ** Moving a card *)

Lemma moveCardToList_keeps cardId targetListId b :
  let b' := moveCardToList cardId targetListId b in
  cards b' = cards b
  ∧ version b' = version b
  ∧ list_id <$> lists b' = list_id <$> lists b
  ∧ list_title <$> lists b' = list_title <$> lists b.
Proof.
  unfold moveCardToList.
  destruct (cards b !! cardId) as [card|]; [| done].
  destruct (target_of targetListId b) as [toList|]; [| done].
  simpl. repeat split.
  - rewrite fmap_alter_same by (by intros l; destruct (includes _ _)).
    destruct (source_of cardId b); [| done]. by apply fmap_alter_same.
  - rewrite fmap_alter_same by (by intros l; destruct (includes _ _)).
    destruct (source_of cardId b); [| done]. by apply fmap_alter_same.
Qed.

Lemma moveCardToList_elsewhere cardId targetListId b k :
  source_of cardId b ≠ Some k → target_of targetListId b ≠ Some k →
  lists (moveCardToList cardId targetListId b) !! k = lists b !! k.
Proof.
  intros Hsrc Htgt. unfold moveCardToList.
  destruct (cards b !! cardId) as [card|]; [| done].
  destruct (target_of targetListId b) as [toList|]; [| done].
  simpl. rewrite list_lookup_alter_ne by congruence.
  destruct (source_of cardId b); [| done].
  rewrite list_lookup_alter_ne; [done | congruence].
Qed.

Lemma moveCardToList_no_target cardId targetListId b :
  target_of targetListId b = None → moveCardToList cardId targetListId b = b.
Proof.
  intros Hto. unfold moveCardToList. rewrite Hto.
  by destruct (cards b !! cardId).
Qed.

(** C9: [moveCardToList] changes neither [cards] nor [version] nor the id,
    the title or the position of any list; only the [cardIds] of the source
    and of the target list can change; without a target list the board as a
    whole stays as it is. *)
Theorem moveCardToList_frame (cardId targetListId : string) (b : Board) :
  let b' := moveCardToList cardId targetListId b in
  cards b' = cards b
  ∧ version b' = version b
  ∧ list_id <$> lists b' = list_id <$> lists b
  ∧ list_title <$> lists b' = list_title <$> lists b
  ∧ (∀ k, source_of cardId b ≠ Some k → target_of targetListId b ≠ Some k →
       lists b' !! k = lists b !! k)
  ∧ (target_of targetListId b = None → b' = b).
Proof.
  intros b'.
  destruct (moveCardToList_keeps cardId targetListId b)
    as (Hcards & Hversion & Hids & Htitles).
  repeat split; try done.
  - intros k. apply moveCardToList_elsewhere.
  - apply moveCardToList_no_target.
Qed.

Lemma moveCardToList_frame_sample :
  lists (moveCardToList "c1" "M" sample_board) !! 2 = lists sample_board !! 2
  ∧ moveCardToList "c1" "nowhere" sample_board = sample_board.
Proof.
  split.
  - apply (moveCardToList_frame "c1" "M" sample_board); by vm_compute.
  - apply (moveCardToList_frame "c1" "nowhere" sample_board). by vm_compute.
Defined.

(** ** Deleting a list *)

Lemma filter_all {A} (P : A → Prop) `{∀ x, Decision (P x)} (xs : list A) :
  (∀ x, x ∈ xs → P x) → filter P xs = xs.
Proof.
  induction xs as [|x xs IH]; intros Hall; [done |].
  rewrite filter_cons_True by (apply Hall; left).
  rewrite IH; [done |]. intros y Hy. apply Hall. by right.
Qed.

Lemma filter_delete_only {A} (P : A → Prop) `{∀ x, Decision (P x)}
    (xs : list A) i x :
  xs !! i = Some x → ¬ P x →
  (∀ j y, xs !! j = Some y → ¬ P y → j = i) →
  filter P xs = delete i xs.
Proof.
  revert i. induction xs as [|a xs IH]; intros i Hi Hx Honly; [done |].
  destruct i as [|i]; simplify_eq/=.
  - rewrite filter_cons_False by done. apply filter_all.
    intros y [k Hk]%list_elem_of_lookup.
    destruct (decide (P y)) as [| Hy]; [done |].
    by specialize (Honly (S k) y Hk Hy).
  - destruct (decide (P a)) as [Ha | Ha];
      [| by specialize (Honly 0 a eq_refl Ha)].
    rewrite filter_cons_True by done. f_equal. apply IH; [done.. |].
    intros j y Hj Hy. by specialize (Honly (S j) y Hj Hy) as [= ->].
Qed.

Lemma has_id_true listId l : has_id listId l = true ↔ list_id l = JStr listId.
Proof. apply strict_eq_string_true. Qed.

Lemma target_of_unique b listId i l :
  unique_list_ids b → lists b !! i = Some l → list_id l = JStr listId →
  target_of listId b = Some i.
Proof.
  intros Huniq Hi Hid. apply findIndex_Some. exists l.
  split; [done |]. split; [by apply has_id_true |].
  intros j y Hj Hy. destruct (has_id listId y) eqn:Hhas; [| done].
  apply has_id_true in Hhas.
  assert (j = i) by (eapply Huniq; [done.. | congruence]). lia.
Qed.

(** C5: on a board that satisfies the data model, confirmed [deleteList] of
    a list whose [cardIds] are [c1] and [c2] removes that list and no
    other from [lists], leaves the other lists as they are, and removes
    [c1] and [c2], and nothing else, from [cards]. *)
Theorem deleteList_cascade (b : Board) (listId : string) (i : nat) (L : List)
    (c1 c2 : string) :
  data_model b →
  lists b !! i = Some L → list_id L = JStr listId →
  cardIds L = [JStr c1; JStr c2] →
  let b' := deleteList listId true b in
  lists b' = delete i (lists b)
  ∧ (∀ l, l ∈ lists b' → list_id l ≠ JStr listId)
  ∧ cards b' !! c1 = None
  ∧ cards b' !! c2 = None
  ∧ cards b' = delete c2 (delete c1 (cards b))
  ∧ version b' = version b.
Proof.
  intros Hdm Hi Hid Hids.
  pose proof (target_of_unique b listId i L (dm_list_ids _ Hdm) Hi Hid) as Hto.
  unfold deleteList. unfold target_of in Hto. rewrite Hto, Hi, Hids. simpl.
  repeat split.
  - apply (filter_delete_only _ _ i L); [done | |].
    + rewrite (proj2 (has_id_true listId L) Hid). done.
    + intros j y Hj Hy. eapply (dm_list_ids _ Hdm); [done.. |].
      destruct (has_id listId y) eqn:Hhas; [| done].
      apply has_id_true in Hhas. congruence.
  - intros l [Hl _]%list_elem_of_filter. by apply strict_eq_string_false in Hl.
  - destruct (decide (c1 = c2)) as [-> | Hne].
    + apply lookup_delete_eq.
    + rewrite lookup_delete_ne by done. apply lookup_delete_eq.
  - apply lookup_delete_eq.
Qed.

Lemma deleteList_cascade_sample :
  let b' := deleteList "L" true sample_board in
  lists b' = delete 0 (lists sample_board)
  ∧ (∀ l, l ∈ lists b' → list_id l ≠ JStr "L")
  ∧ cards b' !! "c1" = None
  ∧ cards b' !! "c2" = None
  ∧ cards b' = delete "c2" (delete "c1" (cards sample_board))
  ∧ version b' = version sample_board.
Proof.
  apply (deleteList_cascade sample_board "L" 0
           (mkList (JStr "L") (JStr "Labs") [JStr "c1"; JStr "c2"])
           "c1" "c2");
    [apply sample_board_data_model | reflexivity..].
Defined.

(** ** Moving a card onto the list that holds it *)

Lemma findIndex_fmap {A B} (g : A → B) (f : B → bool) (xs : list A) :
  findIndex f (g <$> xs) = findIndex (f ∘ g) xs.
Proof.
  induction xs as [|x xs IH]; [done |].
  rewrite fmap_cons. cbn [findIndex]. by rewrite IH.
Qed.

Lemma target_of_same_ids t b1 b2 :
  list_id <$> lists b1 = list_id <$> lists b2 → target_of t b1 = target_of t b2.
Proof.
  intros Hids. unfold target_of.
  change (has_id t) with ((λ v, strict_eq_string (Some v) t) ∘ list_id).
  by rewrite <- !findIndex_fmap, Hids.
Qed.

Lemma set_cardIds_same l : set_cardIds (cardIds l) l = l.
Proof. by destruct l. Qed.

Lemma without_twice cardId ids :
  without cardId (without cardId ids ++ [JStr cardId])
  = without cardId ids.
Proof.
  rewrite without_app, without_self, app_nil_r. apply without_absent.
  intros [_ Hne]%elem_of_without. done.
Qed.

(** The target list after a move: the card is taken out wherever it stood
    and put at the end. *)
Lemma moveCardToList_target cardId targetListId b card i l :
  single_membership b →
  cards b !! cardId = Some card →
  target_of targetListId b = Some i →
  lists b !! i = Some l →
  lists (moveCardToList cardId targetListId b) !! i
  = Some (set_cardIds (without cardId (cardIds l) ++ [JStr cardId]) l).
Proof.
  intros HSM Hcard Hto Hl. unfold moveCardToList. rewrite Hcard, Hto. simpl.
  rewrite list_lookup_alter_eq.
  destruct (source_of cardId b) as [f|] eqn:Hsrc.
  - destruct (decide (f = i)) as [-> | Hne].
    + rewrite list_lookup_alter_eq, Hl. simpl.
      rewrite (proj2 (includes_false _ _)); [done |].
      intros [_ ?]%elem_of_without. done.
    + rewrite list_lookup_alter_ne, Hl by done. simpl.
      apply findIndex_Some in Hsrc as (lf & Hlf & Hin & _).
      apply includes_true in Hin.
      assert (JStr cardId ∉ cardIds l) as Hnot.
      { intros Hin'. apply Hne. eauto. }
      rewrite (proj2 (includes_false _ _) Hnot).
      by rewrite (without_absent _ _ Hnot).
  - rewrite Hl. simpl.
    eapply findIndex_None in Hsrc; [| by eapply list_elem_of_lookup_2].
    rewrite Hsrc. apply includes_false in Hsrc.
    by rewrite (without_absent _ _ Hsrc).
Qed.

Lemma moveCardToList_again cardId targetListId b :
  single_membership b →
  let b' := moveCardToList cardId targetListId b in
  moveCardToList cardId targetListId b' = b'.
Proof.
  intros HSM b'.
  destruct (cards b !! cardId) as [card|] eqn:Hcard; cycle 1.
  { assert (b' = b) as ->
      by (subst b'; unfold moveCardToList; by rewrite Hcard).
    unfold moveCardToList. by rewrite Hcard. }
  destruct (target_of targetListId b) as [i|] eqn:Hto; cycle 1.
  { assert (b' = b) as ->
      by (subst b'; unfold moveCardToList; by rewrite Hcard, Hto).
    unfold moveCardToList. by rewrite Hcard, Hto. }
  destruct (moveCardToList_keeps cardId targetListId b)
    as (Hcards & Hversion & Hids & _).
  fold b' in Hcards, Hversion, Hids.
  assert (target_of targetListId b' = Some i) as Hto'.
  { by rewrite (target_of_same_ids _ b' b). }
  pose proof Hto as Hi. apply findIndex_Some in Hi as (l & Hl & _).
  pose proof (moveCardToList_target _ _ _ _ _ _ HSM Hcard Hto Hl) as Hl'.
  fold b' in Hl'.
  assert (source_of cardId b' = Some i) as Hsrc'.
  { apply findIndex_Some. eexists. split; [exact Hl' |]. split.
    - apply includes_true. simpl. apply elem_of_app. right. left.
    - intros j y Hj Hy. apply includes_false. intros Hin.
      destruct (moveCardToList_back _ _ _ _ _ _ _ _ HSM Hcard Hto Hy Hin)
        as [[_ ->] | [? _]]; [lia | done]. }
  unfold moveCardToList at 1. rewrite Hcards, Hcard, Hto'. simpl.
  unfold source_of in Hsrc'. unfold source_of. rewrite Hsrc'.
  destruct b' as [v' ls' cs'] eqn:Hb'. unfold set_lists. simpl in *.
  f_equal. apply list_eq. intros k.
  destruct (decide (k = i)) as [-> | Hne].
  - rewrite !list_lookup_alter_eq, Hl'. simpl.
    rewrite (proj2 (includes_false _ _));
      [| intros [_ ?]%elem_of_without; done].
    simpl. by rewrite without_twice.
  - by rewrite !list_lookup_alter_ne.
Qed.

(** C4, as the code has it: on a board that satisfies the data model,
    moving a card onto the list that already holds it takes the card out
    and puts it at the end of that list, so that it occurs there once and
    last; a second call with the same card and target changes nothing. *)
Theorem moveCardToList_onto_own_list (b : Board) (cardId targetListId : string)
    (i : nat) (l : List) :
  data_model b →
  is_Some (cards b !! cardId) →
  target_of targetListId b = Some i → lists b !! i = Some l →
  JStr cardId ∈ cardIds l →
  let b' := moveCardToList cardId targetListId b in
  cardIds <$> lists b' !! i
  = Some (without cardId (cardIds l) ++ [JStr cardId])
  ∧ moveCardToList cardId targetListId b' = b'.
Proof.
  intros Hdm [card Hcard] Hto Hl Hin b'. split.
  - subst b'.
    by rewrite (moveCardToList_target _ _ _ _ _ _ (dm_single _ Hdm) Hcard Hto Hl).
  - apply moveCardToList_again, (dm_single _ Hdm).
Qed.

Lemma moveCardToList_onto_own_list_sample :
  let b' := moveCardToList "c1" "L" sample_board in
  cardIds <$> lists b' !! 0 = Some [JStr "c2"; JStr "c1"]
  ∧ moveCardToList "c1" "L" b' = b'.
Proof.
  apply (moveCardToList_onto_own_list sample_board "c1" "L" 0
           (mkList (JStr "L") (JStr "Labs") [JStr "c1"; JStr "c2"])).
  - apply sample_board_data_model.
  - vm_compute. by eexists.
  - reflexivity.
  - reflexivity.
  - simpl. left.
Defined.

(** C4 as it is worded fails: the card that stood first in its own list
    stands last after the move. *)
Lemma moveCardToList_repositions :
  target_of "L" sample_board = Some 0
  ∧ cardIds <$> lists sample_board !! 0 = Some [JStr "c1"; JStr "c2"]
  ∧ cardIds <$> lists (moveCardToList "c1" "L" sample_board) !! 0
    = Some [JStr "c2"; JStr "c1"]
  ∧ cardIds <$> lists (moveCardToList "c1" "L" sample_board) !! 0
    ≠ cardIds <$> lists sample_board !! 0.
Proof. repeat split. by vm_compute. Qed.

(** ** Export, then import *)











Lemma cards_loop_succeeds mk now entries out :
  (∀ id c, (id, c) ∈ entries → ∃ card, mk (now id) id c = Ok card) →
  ∃ res, cards_loop mk now entries out = Ok res.
Proof.
  revert out. induction entries as [|[k c0] rest IH]; intros out Hall.
  - by eexists.
  - cbn [cards_loop]. destruct (Hall k c0 ltac:(left)) as [card ->]. cbn.
    apply IH. intros id c Hc. apply Hall. by right.
Qed.






(** ** Categories *)





(** ** What the import does not check *)

Lemma lists_of_json_lookup uid i0 ls out i l :
  lists_of_json uid i0 ls = Ok out → ls !! i = Some l →
  ∃ L, list_of_json (uid (i0 + i)) l = Ok L ∧ out !! i = Some L.
Proof.
  revert i0 out i. induction ls as [|l0 ls IH]; intros i0 out i Hout Hl;
    [done |].
  cbn [lists_of_json] in Hout.
  destruct (list_of_json (uid i0) l0) as [L0|] eqn:HL0; [| done].
  cbn in Hout.
  destruct (lists_of_json uid (S i0) ls) as [rest|] eqn:Hrest; [| done].
  cbn in Hout. injection Hout as <-. destruct i as [|i]; simplify_eq/=.
  - exists L0. by rewrite Nat.add_0_r.
  - destruct (IH _ _ _ Hrest Hl) as (L & HL & Hi).
    exists L. split; [| done]. by rewrite <- Nat.add_succ_comm.
Qed.

(** C10: the import copies the [cardIds] of a list as they are, whatever
    [cards] holds; the board it returns for [dangling_document] has a list
    that names a card [cards] does not have. *)
Theorem import_copies_cardIds_unchecked (uid : nat → string)
    (now : string → string) :
  (∀ props ls i l ids b,
     normalizeImportedState uid now (JObj props) = Ok b →
     props !! "lists" = Some (JArr ls) → ls !! i = Some (JObj l) →
     l !! "cardIds" = Some (JArr ids) →
     cardIds <$> lists b !! i = Some ids)
  ∧ normalizeImportedState uid now dangling_document = Ok dangling_board
  ∧ cards dangling_board !! "ghost" = None
  ∧ ¬ referential_integrity dangling_board.
Proof.
  split; [| split; [by vm_compute | split; [done |]]].
  - intros props ls i l ids b Hnorm Hlists Hl Hids.
    unfold normalizeImportedState in Hnorm. cbn in Hnorm.
    rewrite Hlists in Hnorm. cbn in Hnorm.
    destruct (lists_of_json uid 0 ls) as [out|] eqn:Hout; [| done].
    cbn in Hnorm.
    destruct (Object_entries _) as [entries|]; [| done]. cbn in Hnorm.
    destruct (cards_loop _ _ _ _) as [out_cards|]; [| done].
    cbn in Hnorm. injection Hnorm as <-. simpl.
    destruct (lists_of_json_lookup _ _ _ _ _ _ Hout Hl) as (L & HL & ->).
    unfold list_of_json in HL. cbn in HL. rewrite Hids in HL. cbn in HL.
    by injection HL as <-.
  - intros HRI.
    destruct (HRI (mkList (JStr "L") (JStr "Labs") [JStr "ghost"])
                (JStr "ghost")) as (s & Hs & Hsome).
    + left.
    + left.
    + simplify_eq. by destruct Hsome.
Qed.

Lemma import_copies_cardIds_unchecked_sample :
  cardIds <$> lists dangling_board !! 0 = Some [JStr "ghost"].
Proof.
  destruct (import_copies_cardIds_unchecked sample_uid sample_now)
    as [Hcopy _].
  apply (Hcopy
           (<["lists" :=
                JArr [JObj (<["id" := JStr "L"]>
                           (<["title" := JStr "Labs"]>
                           (<["cardIds" := JArr [JStr "ghost"]]> ∅)))]]>
             (<["cards" := JObj ∅]> ∅))
           [JObj (<["id" := JStr "L"]>
                 (<["title" := JStr "Labs"]>
                 (<["cardIds" := JArr [JStr "ghost"]]> ∅)))]
           0
           (<["id" := JStr "L"]>
             (<["title" := JStr "Labs"]>
             (<["cardIds" := JArr [JStr "ghost"]]> ∅)))
           [JStr "ghost"]);
    by vm_compute.
Defined.

(** ** What the import rejects *)

Lemma import_rejects_unparsable uid now e state :
  importBoardFromFile uid now (Throw e) state = (state, InvalidDocument).
Proof. done. Qed.

(** [null], a boolean, a number or a string at the top is rejected. *)
Lemma import_rejects_primitive uid now parsed state :
  Array_isArray (Some parsed) = false →
  (∀ props, parsed ≠ JObj props) →
  importBoardFromFile uid now (Ok parsed) state = (state, InvalidDocument).
Proof.
  intros Harr Hobj. destruct parsed; try done.
  - unfold importBoardFromFile, normalizeImportedState. cbn.
    by destruct b.
  - unfold importBoardFromFile, normalizeImportedState. cbn.
    by destruct (negb _).
  - unfold importBoardFromFile, normalizeImportedState. cbn.
    by destruct (negb _).
  - by destruct (Hobj props).
Qed.

(** An array at the top is not rejected: it is read as a board without
    lists and without cards. *)
Lemma import_accepts_array uid now items state :
  importBoardFromFile uid now (Ok (JArr items)) state = (empty_board, Imported).
Proof. done. Qed.

(** C3 fails for the text [[]]: [JSON.parse] gives the empty array, for
    which [typeof] is ["object"]; the import replaces the board by the empty
    board and does not signal [InvalidDocument]. *)
Theorem import_accepts_empty_array (uid : nat → string)
    (now : string → string) :
  importBoardFromFile uid now (Ok (JArr [])) sample_board
  = (empty_board, Imported)
  ∧ empty_board ≠ sample_board.
Proof. split; [done |]. intros [=]. Qed.

(** ** Legacy migration *)

Lemma migrated_board_absent uid now old :
  migrated_board uid now old = Ok None ↔ plausible old = false.
Proof.
  unfold migrated_board, plausible.
  destruct (truthy (Some old)) eqn:Hold; [| done].
  cbn [negb andb].
  destruct old as [| | | | |props]; try done.
  cbn [get mbind result_bind].
  destruct (truthy (props !! "lists")); [| done].
  destruct (truthy (props !! "cards")); [| done].
  cbn [negb andb].
  destruct (lists_map uid (props !! "lists")); [| done].
  cbn [mbind result_bind].
  destruct (Object_entries (props !! "cards")); [| done].
  cbn [mbind result_bind].
  by destruct (cards_loop _ _ _ _).
Qed.

(** Nothing is returned from the call in the initializer of [state] but
    [null]: the assignment to [state] throws. *)
Lemma migrateLegacy_returns uid now stored r :
  migrateLegacy uid now stored = Ok r →
  r = None ∧ plausible (loadOldState stored) = false.
Proof.
  unfold migrateLegacy, migrateFromOldState. intros Hr.
  destruct (migrated_board uid now (loadOldState stored)) as [[board|]|]
    eqn:Hboard; [done | | done].
  cbn in Hr. injection Hr as <-. split; [done |].
  by apply (migrated_board_absent uid now).
Qed.

Lemma migrateLegacy_absent uid now stored :
  migrateLegacy uid now stored = Ok None ↔
  plausible (loadOldState stored) = false.
Proof.
  split.
  - intros Hr. by apply migrateLegacy_returns in Hr as [_ ?].
  - intros Hno. apply (migrated_board_absent uid now) in Hno.
    unfold migrateLegacy, migrateFromOldState. by rewrite Hno.
Qed.

Lemma migrateLegacy_plausible_throws uid now stored :
  plausible (loadOldState stored) = true →
  ∃ e, migrateLegacy uid now stored = Throw e.
Proof.
  intros Hyes. destruct (migrateLegacy uid now stored) as [r|e] eqn:Hr;
    [| by exists e].
  apply migrateLegacy_returns in Hr as [_ Hno]. congruence.
Qed.

(** Once [state] is initialized the function returns the board it built
    and [state] holds it. *)
Lemma migrateFromOldState_initialized uid now old state0 board :
  migrated_board uid now old = Ok (Some board) →
  migrateFromOldState uid now old (Initialized state0)
  = Ok (Some board, Initialized board).
Proof. unfold migrateFromOldState. by intros ->. Qed.

Lemma migrated_card_defaults now id card c :
  migrated_card now id card = Ok c →
  ∃ cid title created,
    get (Some card) "id" = Ok cid
    ∧ get (Some card) "title" = Ok title
    ∧ get (Some card) "createdAt" = Ok created
    ∧ c = {| card_id := cid ?? JStr id;
             card_title := title ?? JStr "Untitled";
             createdAt := created ?? JStr now;
             category := JStr "project";
             dueDate := JNull |}.
Proof.
  unfold migrated_card. intros Hc.
  destruct (get (Some card) "id") as [cid|]; [| done].
  destruct (get (Some card) "title") as [title|]; [| done].
  destruct (get (Some card) "createdAt") as [created|]; [| done].
  cbn in Hc. injection Hc as <-. by exists cid, title, created.
Qed.

(** C6 fails at start-up: for the legacy data of the claim the function
    builds the board the claim describes, and then throws at
    [state = migrated] because [state] is not initialized yet. *)
Theorem migration_example_throws (uid : nat → string) (now : string → string) :
  migrated_board uid now legacy_example
  = Ok (Some (legacy_example_migrated now))
  ∧ migrateLegacy uid now (Some (Ok legacy_example)) = Throw ReferenceError.
Proof.
  assert (migrated_board uid now legacy_example
          = Ok (Some (legacy_example_migrated now))) as Hboard
    by (by vm_compute).
  split; [done |]. unfold migrateLegacy, migrateFromOldState.
  change (loadOldState (Some (Ok legacy_example))) with legacy_example.
  by rewrite Hboard.
Qed.

(** C7 fails: legacy data whose [lists] is the number 5 passes the test
    [!old || !old.lists || !old.cards], and [old.lists.map] throws. *)
Theorem migration_number_lists_throws (uid : nat → string)
    (now : string → string) :
  plausible legacy_number_lists = true
  ∧ migrateLegacy uid now (Some (Ok legacy_number_lists)) = Throw TypeError.
Proof. by vm_compute. Qed.

(** * Further properties of the code *)

(** ** The mutation functions keep the whole data model *)

Lemma unique_list_ids_NoDup b :
  unique_list_ids b ↔ NoDup (list_id <$> lists b).
Proof.
  rewrite NoDup_alt. unfold unique_list_ids. split.
  - intros Huniq i j x Hi Hj. rewrite list_lookup_fmap in Hi, Hj.
    destruct (lists b !! i) as [li|] eqn:Hli; simplify_eq/=.
    destruct (lists b !! j) as [lj|] eqn:Hlj; simplify_eq/=.
    by eapply Huniq.
  - intros Hnodup i j li lj Hi Hj Heq.
    apply (Hnodup i j (list_id li)); rewrite list_lookup_fmap.
    + by rewrite Hi.
    + by rewrite Hj, Heq.
Qed.














(** ** The starter board and the events of the page *)

#[local] Instance JStr_inj : Inj (=) (=) JStr.
Proof. by intros s1 s2 [=]. Qed.

Lemma starter_data_model uid now :
  distinct_uids uid → data_model (starterStateV2 uid now).
Proof.
  intros [Hcards Hlists]. split.
  - done.
  - repeat constructor; simpl; try (by eexists);
      eexists; (split; [done | discriminate]).
  - apply unique_list_ids_NoDup. simpl.
    change (NoDup (JStr <$> (uid <$> [5; 6; 7; 8; 9]))).
    by apply (NoDup_fmap_2 JStr).
  - unfold starterStateV2. simpl.
    repeat (apply map_Forall_insert_2; [| ]);
      [.. | apply map_Forall_empty];
      (split; [done |]); simpl;
      (split; [eexists; (split; [done | discriminate]) |]);
      (split; [by eexists |]); (split; [done | by left]).
  - intros l v Hl%list_elem_of_In Hv. simpl in Hl.
    destruct Hl as [<- | [<- | [<- | [<- | [<- | []]]]]];
      apply list_elem_of_singleton in Hv as ->;
      eexists; (split; [done |]); simpl;
      rewrite !lookup_insert_is_Some'; tauto.
  - intros [|[|[|[|[|i]]]]] [|[|[|[|[|j]]]]] li lj s Hi Hj Hsi Hsj;
      simplify_eq/=; try done;
      apply list_elem_of_singleton in Hsi; apply list_elem_of_singleton in Hsj;
      simplify_eq;
      match goal with
      | |- ?x = ?y =>
          apply (NoDup_lookup _ x y (uid x) Hcards); simpl; congruence
      end.
Qed.

(** X2: a board built by [starterStateV2] from identifiers that differ from
    one another satisfies the data model, and none of its cards is an
    orphan: each is named by one of the lists. *)
Theorem starterStateV2_in_data_model (uid : nat → string) (now : nat → string) :
  distinct_uids uid →
  let b := starterStateV2 uid now in
  data_model b
  ∧ ∀ id, is_Some (cards b !! id) → ∃ l, l ∈ lists b ∧ JStr id ∈ cardIds l.
Proof.
  intros Hdistinct b. split; [by apply starter_data_model |].
  intros id. subst b. simpl. rewrite !lookup_insert_is_Some', lookup_empty.
  intros [<- | [<- | [<- | [<- | [<- | [? [=]]]]]]].
  - eexists. split; [by eapply (list_elem_of_lookup_2 _ 4) | left].
  - eexists. split; [by eapply (list_elem_of_lookup_2 _ 3) | left].
  - eexists. split; [by eapply (list_elem_of_lookup_2 _ 2) | left].
  - eexists. split; [by eapply (list_elem_of_lookup_2 _ 1) | left].
  - eexists. split; [by eapply (list_elem_of_lookup_2 _ 0) | left].
Qed.

Lemma sample_starter_uid_distinct : distinct_uids sample_starter_uid.
Proof.
  split.
  - apply (bool_decide_unpack (NoDup (sample_starter_uid <$> [0; 1; 2; 3; 4]))).
    by vm_compute.
  - apply (bool_decide_unpack (NoDup (sample_starter_uid <$> [5; 6; 7; 8; 9]))).
    by vm_compute.
Qed.

Lemma starterStateV2_in_data_model_sample :
  data_model (starterStateV2 sample_starter_uid sample_starter_now).
Proof.
  apply (starterStateV2_in_data_model sample_starter_uid sample_starter_now).
  apply sample_starter_uid_distinct.
Defined.




(** ** What single calls do *)

(** X4: confirmed [deleteCard] of a card takes it out of [cards] and out
    of every list, whatever the board; the other cards stay as they are
    and every list keeps its id, its title and its other card ids in
    their order. *)
Theorem deleteCard_leaves_no_trace (cardId : string) (b : Board) :
  is_Some (cards b !! cardId) →
  let b' := deleteCard cardId true b in
  cards b' !! cardId = None
  ∧ (∀ l, l ∈ lists b' → JStr cardId ∉ cardIds l)
  ∧ (∀ id, id ≠ cardId → cards b' !! id = cards b !! id)
  ∧ list_id <$> lists b' = list_id <$> lists b
  ∧ list_title <$> lists b' = list_title <$> lists b
  ∧ cardIds <$> lists b' = without cardId <$> (cardIds <$> lists b).
Proof.
  intros [card Hcard]. unfold deleteCard. rewrite Hcard. simpl.
  repeat split.
  - apply lookup_delete_eq.
  - intros l (l0 & -> & _)%list_elem_of_fmap. simpl.
    intros [_ Hne]%elem_of_without. done.
  - intros id Hne. by apply lookup_delete_ne.
  - by rewrite <- list_fmap_compose.
  - by rewrite <- list_fmap_compose.
  - by rewrite <- !list_fmap_compose.
Qed.

Lemma deleteCard_leaves_no_trace_sample :
  cards (deleteCard "c2" true sample_board) !! "c2" = None
  ∧ cardIds <$> lists (deleteCard "c2" true sample_board)
    = [[JStr "c1"]; [JStr "c3"]; []].
Proof.
  destruct (deleteCard_leaves_no_trace "c2" sample_board)
    as (Hgone & _ & _ & _ & _ & Hids).
  - vm_compute. by eexists.
  - split; [exact Hgone |]. rewrite Hids. by vm_compute.
Defined.

Lemma not_referenced b id :
  referential_integrity b → cards b !! id = None →
  ∀ l, l ∈ lists b → JStr id ∉ cardIds l.
Proof.
  intros HRI Hnone l Hl Hin. destruct (HRI l _ Hl Hin) as (s & [= <-] & Hs).
  rewrite Hnone in Hs. by destruct Hs.
Qed.

(** X5: on a board whose references are sound, a card created under an
    identifier that was not in use and deleted at once leaves the board
    exactly as it was. *)
Theorem createCard_then_deleteCard (uid now listId title : string)
    (category dueDate : option string) (b : Board) :
  referential_integrity b → cards b !! uid = None →
  deleteCard uid true (createCard uid now listId title category dueDate b) = b.
Proof.
  intros HRI Hfresh. pose proof (not_referenced b uid HRI Hfresh) as Hnot.
  unfold createCard. destruct (findIndex _ _) as [i|].
  - unfold deleteCard. simpl. rewrite lookup_insert_eq. simpl.
    rewrite delete_insert_eq, (delete_id _ _ Hfresh).
    destruct b as [v ls cs]. simpl in *. f_equal.
    apply list_eq. intros k. rewrite list_lookup_fmap, list_lookup_alter.
    case_decide as Hik.
    + subst k. destruct (ls !! i) as [l|] eqn:Hl; [| done].
      assert (JStr uid ∉ cardIds l) as Hl'
        by (by eapply Hnot, list_elem_of_lookup_2).
      simpl. f_equal.
      rewrite without_app, without_self, app_nil_r, without_absent by done.
      by destruct l.
    + destruct (ls !! k) as [l|] eqn:Hl; [| done].
      assert (JStr uid ∉ cardIds l) as Hl'
        by (by eapply Hnot, list_elem_of_lookup_2).
      simpl. f_equal. rewrite without_absent by done. by destruct l.
  - unfold deleteCard. by rewrite Hfresh.
Qed.

Lemma createCard_then_deleteCard_sample :
  deleteCard "card_7f" true
    (createCard "card_7f" "2024-03-02T10:00:00.000Z" "M" "Write report"
       (Some "lab") None sample_board)
  = sample_board.
Proof.
  apply createCard_then_deleteCard.
  - apply (dm_refs _ sample_board_data_model).
  - reflexivity.
Defined.

(** X6: a list created under an identifier no list had and deleted at once
    leaves the board exactly as it was. *)
Theorem createList_then_deleteList (uid title : string) (b : Board) :
  (∀ l, l ∈ lists b → list_id l ≠ JStr uid) →
  deleteList uid true (createList uid title b) = b.
Proof.
  intros Hfresh.
  assert (∀ l, l ∈ lists b → has_id uid l = false) as Hno.
  { intros l Hl. apply strict_eq_string_false. by apply Hfresh. }
  set (newList := {| list_id := JStr uid; list_title := JStr title;
                     cardIds := [] |}).
  assert (findIndex (has_id uid) (lists b ++ [newList])
          = Some (length (lists b))) as Hfind.
  { apply findIndex_Some. exists newList. split; [| split].
    - by rewrite list_lookup_middle.
    - unfold has_id. simpl. by rewrite bool_decide_eq_true.
    - intros j y Hj Hy. rewrite lookup_app_l in Hy by done.
      by eapply Hno, list_elem_of_lookup_2. }
  unfold deleteList, createList. simpl. fold newList.
  rewrite Hfind, list_lookup_middle by done. simpl.
  rewrite filter_app, filter_all by done.
  rewrite filter_cons_False, filter_nil, app_nil_r; [by destruct b |].
  unfold has_id. simpl. by rewrite bool_decide_true.
Qed.

Lemma createList_then_deleteList_sample :
  deleteList "list_1a" true (createList "list_1a" "Done" sample_board)
  = sample_board.
Proof.
  apply createList_then_deleteList.
  intros l Hl%list_elem_of_In. simpl in Hl.
  by destruct Hl as [<- | [<- | [<- | []]]].
Defined.

(** X7: on a board that satisfies the data model, a move of a card that
    exists to a list that exists takes the card out of the list that holds
    it and puts it at the end of the target; the other ids stay where
    they are, in their order, so afterwards the card is in the target and
    in no other list. *)
Theorem moveCardToList_moves (cardId targetListId : string) (b : Board)
    (i : nat) :
  data_model b → is_Some (cards b !! cardId) →
  target_of targetListId b = Some i →
  let b' := moveCardToList cardId targetListId b in
  cardIds <$> lists b'
  = imap (λ k ids, if bool_decide (k = i)
                   then without cardId ids ++ [JStr cardId]
                   else without cardId ids)
      (cardIds <$> lists b)
  ∧ ∀ k l', lists b' !! k = Some l' → (JStr cardId ∈ cardIds l' ↔ k = i).
Proof.
  intros Hdm [card Hcard] Hto b'.
  pose proof (dm_single _ Hdm) as HSM.
  assert (∀ k l, lists b !! k = Some l →
            cardIds <$> lists b' !! k
            = Some (if bool_decide (k = i)
                    then without cardId (cardIds l) ++ [JStr cardId]
                    else without cardId (cardIds l))) as Hat.
  { intros k l Hl. case_bool_decide as Hk.
    - subst k b'.
      by rewrite (moveCardToList_target _ _ _ _ _ _ HSM Hcard Hto Hl).
    - subst b'. unfold moveCardToList. rewrite Hcard, Hto. simpl.
      rewrite list_lookup_alter_ne by done.
      destruct (source_of cardId b) as [f|] eqn:Hsrc.
      + rewrite list_lookup_alter. case_decide; [subst f |].
        * by rewrite Hl.
        * rewrite Hl. simpl. f_equal. symmetry. apply without_absent.
          intros Hin. apply findIndex_Some in Hsrc as (lf & Hlf & Hinf & _).
          apply includes_true in Hinf. eauto.
      + rewrite Hl. simpl. f_equal. symmetry. apply without_absent.
        eapply findIndex_None in Hsrc; [| by eapply list_elem_of_lookup_2].
        by apply includes_false. }
  assert (length (lists b') = length (lists b)) as Hlen.
  { destruct (moveCardToList_keeps cardId targetListId b)
      as (_ & _ & Hids & _).
    fold b' in Hids. apply (f_equal length) in Hids.
    by rewrite !length_fmap in Hids. }
  split.
  - apply list_eq. intros k.
    rewrite list_lookup_imap, (list_lookup_fmap cardIds (lists b)).
    destruct (lists b !! k) as [l|] eqn:Hl.
    + rewrite list_lookup_fmap. by apply Hat.
    + rewrite list_lookup_fmap. simpl.
      apply lookup_ge_None in Hl. rewrite <- Hlen in Hl.
      apply lookup_ge_None in Hl. by rewrite Hl.
  - intros k l' Hl'.
    destruct (lists b !! k) as [l|] eqn:Hl; cycle 1.
    { apply lookup_ge_None in Hl. rewrite <- Hlen in Hl.
      apply lookup_ge_None in Hl. congruence. }
    specialize (Hat k l Hl). rewrite Hl' in Hat. simpl in Hat.
    injection Hat as ->. case_bool_decide as Hk.
    + split; [done |]. intros _. apply elem_of_app. right. left.
    + split; [| done]. intros [_ Hne]%elem_of_without. done.
Qed.

Lemma moveCardToList_moves_sample :
  cardIds <$> lists (moveCardToList "c1" "M" sample_board)
  = [[JStr "c2"]; [JStr "c3"; JStr "c1"]; []].
Proof.
  destruct (moveCardToList_moves "c1" "M" sample_board 1) as [Hids _].
  - apply sample_board_data_model.
  - vm_compute. by eexists.
  - reflexivity.
  - rewrite Hids. by vm_compute.
Defined.



(** X9: [editCard] neither adds nor removes a card and leaves the lists,
    the other cards, and the id and the creation time of the card as they
    are; the same answers given a second time change nothing more. *)
Theorem editCard_frame (cardId : string)
    (nextTitle catPrompt duePrompt : option string) (b : Board) :
  let b' := editCard cardId nextTitle catPrompt duePrompt b in
  lists b' = lists b
  ∧ version b' = version b
  ∧ dom (cards b') = dom (cards b)
  ∧ (∀ id, id ≠ cardId → cards b' !! id = cards b !! id)
  ∧ card_id <$> cards b' !! cardId = card_id <$> cards b !! cardId
  ∧ createdAt <$> cards b' !! cardId = createdAt <$> cards b !! cardId
  ∧ editCard cardId nextTitle catPrompt duePrompt b' = b'.
Proof.
  intros b'.
  assert (b' = b → editCard cardId nextTitle catPrompt duePrompt b = b →
          lists b' = lists b
          ∧ version b' = version b
          ∧ dom (cards b') = dom (cards b)
          ∧ (∀ id, id ≠ cardId → cards b' !! id = cards b !! id)
          ∧ card_id <$> cards b' !! cardId = card_id <$> cards b !! cardId
          ∧ createdAt <$> cards b' !! cardId = createdAt <$> cards b !! cardId
          ∧ editCard cardId nextTitle catPrompt duePrompt b' = b') as Hsame.
  { intros -> Hb. by repeat split. }
  destruct (cards b !! cardId) as [card|] eqn:Hcard; cycle 1.
  { apply Hsame; subst b'; unfold editCard; by rewrite Hcard. }
  destruct nextTitle as [next|]; cycle 1.
  { apply Hsame; subst b'; unfold editCard; by rewrite Hcard. }
  destruct (decide (trim next = "")) as [Hblank | Hblank].
  { apply Hsame; subst b'; unfold editCard;
      by rewrite Hcard, bool_decide_true. }
  clear Hsame.
  set (cat := toLowerCase (trim (default "" catPrompt))).
  set (due := trim (default "" duePrompt)).
  set (card' := {| card_id := card_id card;
                   card_title := JStr (trim next);
                   createdAt := createdAt card;
                   category :=
                     if is_category (Some (JStr cat)) then JStr cat
                     else category card;
                   dueDate :=
                     if bool_decide (due = "") then JNull else JStr due |}).
  assert (b' = {| version := version b; lists := lists b;
                  cards := <[cardId := card']> (cards b) |}) as ->.
  { subst b'. unfold editCard. by rewrite Hcard, bool_decide_false. }
  simpl. rewrite lookup_insert_eq. simpl. repeat split.
  - by apply dom_insert_lookup_L.
  - intros id Hne. by apply lookup_insert_ne.
  - unfold editCard. simpl. rewrite lookup_insert_eq.
    rewrite bool_decide_false by done. rewrite insert_insert_eq.
    fold cat due. subst card'. simpl.
    do 3 f_equal. by destruct (is_category _).
Qed.

Lemma editCard_frame_sample :
  cards (editCard "c1" (Some "Finish lab 4") (Some "mod") None sample_board)
    !! "c2"
  = cards sample_board !! "c2".
Proof.
  by apply (editCard_frame "c1" (Some "Finish lab 4") (Some "mod") None
              sample_board).
Defined.

(** ** What the import returns *)

Lemma cards_loop_origin mk now entries out res id card :
  cards_loop mk now entries out = Ok res → res !! id = Some card →
  out !! id = Some card ∨ ∃ c, (id, c) ∈ entries ∧ mk (now id) id c = Ok card.
Proof.
  revert out. induction entries as [|[k c0] rest IH]; intros out Hloop Hres.
  - left. by injection Hloop as <-.
  - cbn [cards_loop] in Hloop.
    destruct (mk (now k) k c0) as [card0|] eqn:Hmk; [| done]. cbn in Hloop.
    destruct (IH _ Hloop Hres) as [Hout | (c & Hc & Hcard)].
    + apply lookup_insert_Some in Hout as [[<- <-] | [_ Hout]]; [| by left].
      right. exists c0. split; [left | done].
    + right. exists c. split; [by right | done].
Qed.

Lemma normalized_card_shape now id c card :
  normalized_card now id c = Ok card →
  is_category (Some (category card)) = true
  ∧ (dueDate card = JNull ∨ is_string (dueDate card)).
Proof.
  unfold normalized_card. intros Hcard.
  destruct (get (Some c) "id"); [| done].
  destruct (get (Some c) "title"); [| done].
  destruct (get (Some c) "createdAt"); [| done].
  destruct (get (Some c) "category") as [cat|]; [| done].
  destruct (get (Some c) "dueDate") as [due|]; [| done].
  cbn [mbind result_bind mret result_ret] in Hcard.
  injection Hcard as <-. cbn [category dueDate]. split.
  - destruct (is_category cat) eqn:Hcat; [| done].
    by destruct cat as [v|].
  - destruct due as [[| | |s| |]|]; simpl; try (by left). right. by exists s.
Qed.

(** X10: whatever the document, a board the import returns has version 2,
    and each of its cards has a category of [CATEGORY_OPTIONS] and a due
    date that is a string or [null]. *)
Theorem normalizeImportedState_establishes (uid : nat → string)
    (now : string → string) (parsed : json) (b : Board) :
  normalizeImportedState uid now parsed = Ok b →
  version b = JNum "2"
  ∧ map_Forall
      (λ _ card,
         is_category (Some (category card)) = true
         ∧ (dueDate card = JNull ∨ is_string (dueDate card)))
      (cards b).
Proof.
  unfold normalizeImportedState. intros Hnorm.
  destruct (negb _ || negb _); [done |].
  destruct (get (Some parsed) "lists") as [parsed_lists|]; [| done].
  cbn [mbind result_bind] in Hnorm.
  destruct (get (Some parsed) "cards") as [parsed_cards|]; [| done].
  cbn [mbind result_bind] in Hnorm.
  destruct (lists_of_json uid 0 _) as [out_lists|]; [| done].
  cbn [mbind result_bind] in Hnorm.
  destruct (Object_entries _) as [entries|]; [| done].
  cbn [mbind result_bind] in Hnorm.
  destruct (cards_loop normalized_card now entries ∅) as [out_cards|]
    eqn:Hloop; [| done].
  cbn [mbind result_bind] in Hnorm. injection Hnorm as <-.
  split; [done |].
  intros id card Hcard.
  destruct (cards_loop_origin _ _ _ _ _ _ _ Hloop Hcard)
    as [Hempty | (c & _ & Hc)]; [by rewrite lookup_empty in Hempty |].
  by eapply normalized_card_shape.
Qed.

Lemma normalizeImportedState_establishes_sample :
  version urgent_board = JNum "2"
  ∧ map_Forall
      (λ _ card,
         is_category (Some (category card)) = true
         ∧ (dueDate card = JNull ∨ is_string (dueDate card)))
      (cards urgent_board).
Proof.
  apply (normalizeImportedState_establishes sample_uid sample_now
           (JObj urgent_document) urgent_board).
  by vm_compute.
Defined.

Lemma lists_of_json_length uid i ls out :
  lists_of_json uid i ls = Ok out → length out = length ls.
Proof.
  revert i out. induction ls as [|l ls IH]; intros i out Hout.
  - by injection Hout as <-.
  - cbn [lists_of_json] in Hout.
    destruct (list_of_json (uid i) l); [| done]. cbn in Hout.
    destruct (lists_of_json uid (S i) ls) as [rest|] eqn:Hrest; [| done].
    cbn in Hout. injection Hout as <-. simpl. f_equal. by eapply IH.
Qed.




Lemma list_of_json_succeeds uid l :
  l ≠ JNull ↔ ∃ L, list_of_json uid l = Ok L.
Proof.
  unfold list_of_json. destruct l; cbn; split; try done;
    try (intros _; by eexists); by intros [? ?].
Qed.

Lemma lists_of_json_succeeds uid i ls :
  JNull ∉ ls ↔ ∃ out, lists_of_json uid i ls = Ok out.
Proof.
  revert i. induction ls as [|l ls IH]; intros i.
  - split; [intros _; by eexists | intros _; apply not_elem_of_nil].
  - cbn [lists_of_json]. rewrite not_elem_of_cons. split.
    + intros [Hl Hls]. apply not_eq_sym, (list_of_json_succeeds (uid i)) in Hl
        as [L ->].
      apply (IH (S i)) in Hls as [out ->]. cbn. by eexists.
    + intros [out Hout].
      destruct (list_of_json (uid i) l) as [L|] eqn:HL; [| done].
      cbn in Hout.
      destruct (lists_of_json uid (S i) ls) as [rest|] eqn:Hrest; [| done].
      split.
      * apply not_eq_sym, (list_of_json_succeeds (uid i)). eauto.
      * apply (IH (S i)). eauto.
Qed.

Lemma normalized_card_succeeds now id c :
  c ≠ JNull ↔ ∃ card, normalized_card now id c = Ok card.
Proof.
  unfold normalized_card. destruct c; cbn; split; try done;
    try (intros _; by eexists); by intros [? ?].
Qed.

Lemma cards_loop_fails_on mk now entries out id c :
  (id, c) ∈ entries → (∀ card, mk (now id) id c ≠ Ok card) →
  ∀ res, cards_loop mk now entries out ≠ Ok res.
Proof.
  revert out. induction entries as [|[k c0] rest IH]; intros out Hin Hfail res.
  - by apply elem_of_nil in Hin.
  - cbn [cards_loop]. apply elem_of_cons in Hin as [[= <- <-] | Hin].
    + destruct (mk (now id) id c) as [card|] eqn:Hmk; [| done].
      by destruct (Hfail card).
    + destruct (mk (now k) k c0) as [card|]; [| done]. cbn. by apply IH.
Qed.

(** X12: the import of a document with a [lists] array and a [cards]
    object fails if and only if one of the entries of [lists] or one of
    the values of [cards] is [null]; no other content makes it fail. *)
Theorem normalizeImportedState_fails_on_null (uid : nat → string)
    (now : string → string) (props cs : gmap string json) (ls : list json) :
  props !! "lists" = Some (JArr ls) → props !! "cards" = Some (JObj cs) →
  (∃ b, normalizeImportedState uid now (JObj props) = Ok b)
  ↔ ((JNull ∉ ls) ∧ ∀ id, cs !! id ≠ Some JNull).
Proof.
  intros Hlists Hcards. unfold normalizeImportedState. cbn.
  rewrite Hlists, Hcards. cbn. split.
  - intros [b Hb].
    destruct (lists_of_json uid 0 ls) as [out_lists|] eqn:Hout; [| done].
    cbn in Hb.
    destruct (cards_loop normalized_card now (map_to_list cs) ∅)
      as [out_cards|] eqn:Hloop; [| done].
    split; [apply (lists_of_json_succeeds uid 0); eauto |].
    intros id Hid.
    apply (cards_loop_fails_on _ _ _ _ id JNull) with (res := out_cards)
      in Hloop; [done | by apply elem_of_map_to_list | done].
  - intros [Hls Hcs].
    apply (lists_of_json_succeeds uid 0) in Hls as [out_lists ->]. cbn.
    destruct (cards_loop_succeeds normalized_card now (map_to_list cs) ∅)
      as [out_cards ->]; [| cbn; by eexists].
    intros id c Hc%elem_of_map_to_list.
    apply normalized_card_succeeds. intros ->. by apply (Hcs id).
Qed.

Lemma normalizeImportedState_fails_on_null_sample :
  ¬ ∃ b, normalizeImportedState sample_uid sample_now (JObj null_card_document)
         = Ok b.
Proof.
  intros Hok.
  apply (normalizeImportedState_fails_on_null sample_uid sample_now
           null_card_document (<["c1" := JNull]> ∅) []) in Hok as [_ Hcs];
    [| done | done].
  by apply (Hcs "c1").
Defined.

Lemma cards_loop_ext mk1 mk2 now entries out :
  (∀ id c, (id, c) ∈ entries → mk1 (now id) id c = mk2 (now id) id c) →
  cards_loop mk1 now entries out = cards_loop mk2 now entries out.
Proof.
  revert out. induction entries as [|[k c0] rest IH]; intros out Hext;
    [done |].
  cbn [cards_loop]. rewrite (Hext k c0) by left.
  destruct (mk2 (now k) k c0); [| done]. cbn. apply IH.
  intros id c Hc. apply Hext. by right.
Qed.

Lemma legacy_card_same now id c :
  legacy_card c → migrated_card now id c = normalized_card now id c.
Proof.
  unfold legacy_card, migrated_card, normalized_card. intros Hlegacy.
  destruct c as [| | | | |props]; try done.
  cbn [get mbind result_bind] in *.
  by destruct (Hlegacy _ _ eq_refl eq_refl) as [-> ->].
Qed.

(** X13: for legacy data with a [lists] array and a [cards] object whose
    cards have neither a known category nor a due date, the migration
    builds the very board the import of the same document returns, and
    fails when the import fails. *)
Theorem migration_agrees_with_import (uid : nat → string)
    (now : string → string) (props cs : gmap string json) (ls : list json) :
  props !! "lists" = Some (JArr ls) → props !! "cards" = Some (JObj cs) →
  (∀ id c, cs !! id = Some c → legacy_card c) →
  migrated_board uid now (JObj props)
  = Some <$> normalizeImportedState uid now (JObj props).
Proof.
  intros Hlists Hcards Hlegacy.
  unfold migrated_board, normalizeImportedState. cbn.
  rewrite Hlists, Hcards. cbn.
  destruct (lists_of_json uid 0 ls) as [out_lists|]; [| done]. cbn.
  rewrite (cards_loop_ext migrated_card normalized_card).
  - by destruct (cards_loop normalized_card now (map_to_list cs) ∅).
  - intros id c Hc%elem_of_map_to_list. apply legacy_card_same.
    by apply (Hlegacy id).
Qed.

Lemma migration_agrees_with_import_sample :
  migrated_board sample_uid sample_now legacy_example
  = Some <$> normalizeImportedState sample_uid sample_now legacy_example.
Proof.
  apply (migration_agrees_with_import sample_uid sample_now _
           (<["C1" := JObj (<["title" := JStr "x"]> ∅)]> ∅)
           [JObj (<["id" := JStr "L1"]> ∅)]); [done | done |].
  intros id c [[<- <-] | [_ Hc]]%lookup_insert_Some; [| done].
  intros cat due [= <-] [= <-]. done.
Defined.

(** ** What the migration builds, and start-up *)

(** X14: a board the migration builds has version 2, as many lists as the
    legacy [lists] array has entries, and only cards of category
    [project] without a due date, whatever the legacy cards held. *)
Theorem migrated_board_establishes (uid : nat → string)
    (now : string → string) (old : json) (b : Board) :
  migrated_board uid now old = Ok (Some b) →
  version b = JNum "2"
  ∧ (∀ ls, get (Some old) "lists" = Ok (Some (JArr ls)) →
       length (lists b) = length ls)
  ∧ map_Forall
      (λ _ card, category card = JStr "project" ∧ dueDate card = JNull)
      (cards b).
Proof.
  unfold migrated_board. intros Hb.
  destruct (negb (truthy (Some old))); [done |].
  destruct (get (Some old) "lists") as [old_lists|]; [| done].
  cbn [mbind result_bind] in Hb.
  destruct (negb (truthy old_lists)); [done |].
  destruct (get (Some old) "cards") as [old_cards|]; [| done].
  cbn [mbind result_bind] in Hb.
  destruct (negb (truthy old_cards)); [done |].
  destruct (lists_map uid old_lists) as [migrated_lists|] eqn:Hlists;
    [| done].
  cbn [mbind result_bind] in Hb.
  destruct (Object_entries old_cards) as [entries|]; [| done].
  cbn [mbind result_bind] in Hb.
  destruct (cards_loop migrated_card now entries ∅) as [migrated_cards|]
    eqn:Hloop; [| done].
  cbn [mbind result_bind] in Hb. injection Hb as <-.
  split; [done |]. split.
  - intros ls [= ->]. simpl in *. by eapply lists_of_json_length.
  - intros id card Hcard. simpl in Hcard.
    destruct (cards_loop_origin _ _ _ _ _ _ _ Hloop Hcard)
      as [Hempty | (c & _ & Hc)]; [by rewrite lookup_empty in Hempty |].
    by apply migrated_card_defaults in Hc as (? & ? & ? & _ & _ & _ & ->).
Qed.

Lemma migrated_board_establishes_sample :
  map_Forall
    (λ _ card, category card = JStr "project" ∧ dueDate card = JNull)
    (cards (legacy_example_migrated sample_now)).
Proof.
  apply (migrated_board_establishes sample_uid sample_now legacy_example).
  by vm_compute.
Defined.

(** X15: how [state] starts.  A stored document of version 2 is taken as
    it is, and the legacy key is then not looked at.  Without one, legacy
    data that passes the test of [migrateFromOldState] makes the
    initializer throw, and any other content of the legacy key leads to
    the starter board. *)
Theorem initial_state_cases (uid : nat → string) (now : string → string)
    (starter_uid : nat → string) (starter_now : nat → string) (s : storage) :
  (∀ parsed, loadStateV2 (stored_v2 s) = Some parsed →
     initial_state uid now starter_uid starter_now s = Ok (Loaded parsed))
  ∧ (loadStateV2 (stored_v2 s) = None →
     plausible (loadOldState (stored_old s)) = true →
     ∃ e, initial_state uid now starter_uid starter_now s = Throw e)
  ∧ (loadStateV2 (stored_v2 s) = None →
     plausible (loadOldState (stored_old s)) = false →
     initial_state uid now starter_uid starter_now s
     = Ok (Built (starterStateV2 starter_uid starter_now))).
Proof.
  unfold initial_state. repeat split.
  - by intros parsed ->.
  - intros -> Hplausible.
    destruct (migrateLegacy uid now (stored_old s)) as [r|e] eqn:Hr;
      [| by exists e].
    apply migrateLegacy_returns in Hr as [_ Hno]. congruence.
  - intros -> Himplausible.
    apply (migrateLegacy_absent uid now) in Himplausible.
    by rewrite Himplausible.
Qed.

Lemma initial_state_cases_sample :
  ∃ e, initial_state sample_uid sample_now sample_starter_uid
         sample_starter_now sample_storage = Throw e.
Proof.
  by apply (initial_state_cases sample_uid sample_now sample_starter_uid
              sample_starter_now sample_storage).
Defined.

Lemma reparsed_version v : reparsed v = JNum "2" ↔ v = JNum "2".
Proof.
  destruct v as [| |r| | |]; try done. simpl.
  destruct (bool_decide (r = "NaN") || bool_decide (r = "Infinity")
            || bool_decide (r = "-Infinity")) eqn:Hr; [| done].
  split; [done |]. intros [= ->]. done.
Qed.

Lemma loadStateV2_Some stored parsed :
  loadStateV2 stored = Some parsed →
  stored = Some (Ok parsed)
  ∧ ∃ props, parsed = JObj props ∧ props !! "version" = Some (JNum "2").
Proof.
  unfold loadStateV2. intros Hload.
  destruct stored as [[p|]|]; [| done..].
  destruct (negb (truthy (Some p))); [done |].
  destruct p as [| | | | |props]; try done. cbn [get] in Hload.
  destruct (props !! "version") as [[| |r| | |]|] eqn:Hv; try done.
  cbn [strict_eq_number] in Hload.
  case_bool_decide; [| done]. cbn [negb] in Hload.
  injection Hload as <-. subst r. split; [done |]. by eexists.
Qed.

Lemma loadStateV2_saved b :
  loadStateV2 (Some (Ok (exportBoard b)))
  = if strict_eq_number (Some (reparsed (version b))) "2"
    then Some (exportBoard b) else None.
Proof.
  unfold loadStateV2, exportBoard. cbn [truthy negb get].
  rewrite lookup_insert_eq. by destruct (strict_eq_number _ _).
Qed.

Lemma strict_eq_number_true v r :
  strict_eq_number (Some v) r = true ↔ v = JNum r.
Proof.
  destruct v; simpl; try (split; [done | discriminate]).
  rewrite bool_decide_eq_true. split; congruence.
Qed.

(** X16: a document is what [loadStateV2] returns only if it is an object
    whose [version] is the number 2.  What [saveStateV2] has written for a
    board is such a document exactly if the version of the board is 2; it
    is then what start-up takes, whatever the legacy key holds, and
    [saveStateV2] leaves the legacy key as it is. *)
Theorem saved_state_is_loaded (b : Board) (s : storage) :
  (∀ stored parsed, loadStateV2 stored = Some parsed →
     stored = Some (Ok parsed)
     ∧ ∃ props, parsed = JObj props ∧ props !! "version" = Some (JNum "2"))
  ∧ (loadStateV2 (stored_v2 (saveStateV2 b s)) = Some (exportBoard b)
     ↔ version b = JNum "2")
  ∧ (version b = JNum "2" →
     ∀ uid now starter_uid starter_now,
       initial_state uid now starter_uid starter_now (saveStateV2 b s)
       = Ok (Loaded (exportBoard b)))
  ∧ stored_old (saveStateV2 b s) = stored_old s.
Proof.
  split; [apply loadStateV2_Some |].
  split; [| split; [| done]].
  - cbn [saveStateV2 stored_v2]. rewrite loadStateV2_saved.
    destruct (strict_eq_number _ _) eqn:Hv.
    + apply strict_eq_number_true in Hv.
      apply (proj1 (reparsed_version _)) in Hv.
      split; intros _; [exact Hv | reflexivity].
    + split; [intros [=] |]. intros Hb. rewrite Hb in Hv. discriminate Hv.
  - intros Hb uid now starter_uid starter_now. unfold initial_state.
    cbn [saveStateV2 stored_v2]. by rewrite loadStateV2_saved, Hb.
Qed.

Lemma saved_state_is_loaded_sample :
  initial_state sample_uid sample_now sample_starter_uid sample_starter_now
    (saveStateV2 sample_board sample_storage)
  = Ok (Loaded (exportBoard sample_board)).
Proof.
  by apply (saved_state_is_loaded sample_board sample_storage).
Defined.

(** ** What is shown *)



(** X18: the badge of a card is always one of [CATEGORY_OPTIONS]: the one
    whose key is the category of the card if there is one, and [Project]
    for any other category. *)
Theorem badge_of_card (card : Card) :
  badge card ∈ CATEGORY_OPTIONS
  ∧ (is_category (Some (category card)) = true →
     category card = JStr (key (badge card)))
  ∧ (is_category (Some (category card)) = false →
     badge card = {| key := "project"; label := "Project" |}).
Proof.
  unfold badge, is_category.
  destruct (category card) as [| | |s| |];
    try (split; [apply list_elem_of_In; simpl; tauto | by split]).
  cbn [List.find existsb CATEGORY_OPTIONS strict_eq_string key].
  repeat case_bool_decide; subst; simpl;
    (split; [apply list_elem_of_In; simpl; tauto | by split]).
Qed.

Lemma badge_of_card_sample :
  category (sample_card "c1" "Finish lab 3" "lab" JNull)
  = JStr (key (badge (sample_card "c1" "Finish lab 3" "lab" JNull)))
  ∧ badge (sample_card "c9" "Call the lab" "urgent" JNull)
    = {| key := "project"; label := "Project" |}.
Proof.
  split.
  - by apply (badge_of_card (sample_card "c1" "Finish lab 3" "lab" JNull)).
  - by apply (badge_of_card (sample_card "c9" "Call the lab" "urgent" JNull)).
Defined.
